(** * Indexed accumulation ([groupby_python]) and zero clamping

    Shallow embedding of the two kernels of the Numba notebooks:

    - [3_numba_groupby_pixels.ipynb]: [groupby_python] / [groupby_numba],
      the scatter-add [output[index[i]] += value[i]];
    - [1_numpy.ipynb]: [zero_clamp], [np_zero_clamp], [ufunc_zero_clamp].

    Arrays are one-dimensional NumPy arrays, modelled as lists.  The element
    type of the accumulators (the dtype) is a parameter of the development;
    it is instantiated with binary64 floats ([float64], the dtype the
    notebook runs on), with [Z] (integer accumulation without overflow) and
    with NumPy's wrapping [int64]. *)

From Stdlib Require Import ZArith Lia Floats.
From stdpp Require Import base tactics option numbers sorting list.

Local Open Scope Z_scope.

(** ** NumPy indexing *)

(** The exception NumPy raises on a bad subscript,
    [IndexError: index <index> is out of bounds for axis 0 with size <size>]. *)
Inductive exn : Type :=
  | IndexError (index : Z) (size : nat).

Global Instance exn_eq_dec : EqDecision exn.
Proof. solve_decision. Defined.

(** Computations that may raise. *)
Definition raises (B : Type) : Type := (exn + B)%type.

Definition ret {B : Type} (b : B) : raises B := inr b.
Definition raise {B : Type} (e : exn) : raises B := inl e.
Definition bind {B C : Type} (m : raises B) (k : B → raises C) : raises C :=
  match m with
  | inl e => inl e
  | inr b => k b
  end.

Notation "x ←! m ; k" := (bind m (λ x, k))
  (at level 20, m at level 100, k at level 200, only parsing, right associativity).

(** The subscripts an axis of length [M] accepts. *)
Definition accepted (M : nat) (k : Z) : Prop :=
  - Z.of_nat M ≤ k < Z.of_nat M.

Global Instance accepted_dec (M : nat) (k : Z) : Decision (accepted M k).
Proof. unfold accepted. apply _. Defined.

(** An index [k] into an axis of length [size] is accepted when
    [-size <= k < size]; a negative one counts from the end. *)
Definition adjust_index (k : Z) (size : nat) : raises nat :=
  if bool_decide (accepted size k) then
    ret (Z.to_nat (if bool_decide (k < 0) then k + Z.of_nat size else k))
  else raise (IndexError k size).

(** [a[k]] *)
Definition getitem {B : Type} (a : list B) (k : Z) : raises B :=
  n ←! adjust_index k (length a);
  match a !! n with
  | Some x => ret x
  | None => raise (IndexError k (length a))
  end.

(** [a[k] = x], on a mutable array: the new contents of [a]. *)
Definition setitem {B : Type} (a : list B) (k : Z) (x : B) : raises (list B) :=
  n ←! adjust_index k (length a);
  ret (<[n := x]> a).

(** What a call leaves behind: the caller's buffer is mutated in place, so
    its contents are observable whether the call returns or raises. *)
Inductive outcome (A : Type) : Type :=
  | Normal (output : list A)
  | Raised (e : exn) (output : list A).
Arguments Normal {A} output.
Arguments Raised {A} e output.

Definition buffer {A : Type} (r : outcome A) : list A :=
  match r with
  | Normal output => output
  | Raised _ output => output
  end.

Definition raised {A : Type} (r : outcome A) : option exn :=
  match r with
  | Normal _ => None
  | Raised e _ => Some e
  end.

(** [for i in range_: body], stopping at the first exception. *)
Fixpoint for_range {A : Type} (body : nat → list A → raises (list A))
    (range_ : list nat) (output : list A) : outcome A :=
  match range_ with
  | [] => Normal output
  | i :: rest =>
      match body i output with
      | inl e => Raised e output
      | inr output' => for_range body rest output'
      end
  end.

(** ** The accumulation kernel *)

Section Groupby.
Context {A : Type}.
Variable add : A → A → A.

(** One iteration, [output[index[i]] += value[i]].  Python evaluates the
    target subscript first, reads [output[index[i]]], then evaluates
    [value[i]], adds, and stores. *)
Definition groupby_body (index : list Z) (value : list A) (i : nat)
    (output : list A) : raises (list A) :=
  k ←! getitem index (Z.of_nat i);
  old ←! getitem output k;
  v ←! getitem value (Z.of_nat i);
  setitem output k (add old v).

(** [def groupby_python(index, value, output):
       for i in range(index.shape[0]):
           output[index[i]] += value[i]] *)
Definition groupby_python (index : list Z) (value : list A)
    (output : list A) : outcome A :=
  for_range (groupby_body index value) (seq 0 (length index)) output.

(** [groupby_numba = numba.jit(groupby_python, nopython=True)]: the same
    loop compiled without bounds checks.  Negative subscripts still wrap;
    a run with a subscript out of bounds has no defined result ([None]). *)
Definition groupby_numba (index : list Z) (value : list A)
    (output : list A) : option (list A) :=
  match groupby_python index value output with
  | Normal output' => Some output'
  | Raised _ _ => None
  end.

(** *** The loop, by recursion on the two input arrays

    [pos] is the position of the heads in the arrays the call received and
    [size] the length of its value array. *)
Fixpoint scan (index : list Z) (value : list A) (pos size : nat)
    (output : list A) : outcome A :=
  match index with
  | [] => Normal output
  | k :: index' =>
      match getitem output k with
      | inl e => Raised e output
      | inr old =>
          match value with
          | [] => Raised (IndexError (Z.of_nat pos) size) output
          | v :: value' =>
              match setitem output k (add old v) with
              | inl e => Raised e output
              | inr output' => scan index' value' (S pos) size output'
              end
          end
      end
  end.

(** *** The kernel as the specification words it *)

(** "add [values[i]] into [output[indices[i]]]" *)
Definition add_into (output : list A) (p : Z * A) : list A :=
  alter (λ old, add old p.2) (Z.to_nat p.1) output.

(** "Single linear pass over the N (index, value) pairs", left to right. *)
Definition accumulate_fold (index : list Z) (value output : list A) : list A :=
  fold_left add_into (zip index value) output.

(** The values contributed to bucket [k], in position order. *)
Definition values_at (k : nat) (index : list Z) (value : list A) : list A :=
  (filter (λ p, p.1 = Z.of_nat k) (zip index value)).*2.

(** [sum(...)]: left to right from the additive identity. *)
Definition sum_list (zero : A) (l : list A) : A := fold_left add l zero.

(** Valid input: aligned arrays, every index in [[0, M)]. *)
Definition valid_input (index : list Z) (value output : list A) : Prop :=
  length index = length value ∧
  Forall (λ k, 0 ≤ k < Z.of_nat (length output)) index.

(** Where a subscript accepted by NumPy lands. *)
Definition wrap (M : nat) (k : Z) : Z :=
  if bool_decide (k < 0) then Z.of_nat M + k else k.

(** "[output[k] = initial[k] + sum(values[i] for i where indices[i] == k)]
    for every k in [0, M)", on one input. *)
Definition bucket_sums (zero : A) (index : list Z) (value initial : list A) : Prop :=
  ∀ k init_k, initial !! k = Some init_k →
    ∃ output, groupby_python index value initial = Normal output ∧
      output !! k = Some (add init_k (sum_list zero (values_at k index value))).

(** "Any [indices[i]] outside [[0, bucket_count)] signals an error", on one
    input. *)
Definition rejects_out_of_range (index : list Z) (value output : list A) : Prop :=
  (∃ i k, index !! i = Some k ∧ ¬ (0 ≤ k < Z.of_nat (length output))) →
  ∃ e output', groupby_python index value output = Raised e output'.

(** "[len(indices) != len(values)] signals an error; no partial mutation of
    [output] is observable", on one input. *)
Definition rejects_length_mismatch (index : list Z) (value output : list A) : Prop :=
  length index ≠ length value →
  ∃ e, groupby_python index value output = Raised e output.

(** Addition without rounding: integers, exact reals. *)
Class ExactAdd (zero : A) : Prop := {
  exact_assoc : ∀ a b c, add a (add b c) = add (add a b) c;
  exact_comm : ∀ a b, add a b = add b a;
  exact_zero_l : ∀ a, add zero a = a
}.

End Groupby.

(** ** The clamp kernels *)

Section Clamp.
Context {A T : Type}.
Variable abs : A → A.        (* [np.abs] on an element *)
Variable gt : A → T → bool.  (* [>] between an element and the threshold *)
Variable zero : A.           (* the literal [0] stored at the array's dtype *)

(** [np.empty_like(x)]: the shape of [x], contents whatever memory [mem]
    held. *)
Definition empty_like (mem : nat → A) (x : list A) : list A :=
  mem <$> seq 0 (length x).

(** [if np.abs(x[i]) > threshold: out[i] = x[i]
     else: out[i] = 0] *)
Definition zero_clamp_body (x : list A) (threshold : T) (i : nat)
    (out : list A) : raises (list A) :=
  xi ←! getitem x (Z.of_nat i);
  if gt (abs xi) threshold then
    xi' ←! getitem x (Z.of_nat i);
    setitem out (Z.of_nat i) xi'
  else setitem out (Z.of_nat i) zero.

(** [def zero_clamp(x, threshold):
       out = np.empty_like(x)
       for i in range(out.shape[0]): ...
       return out] *)
Definition zero_clamp (mem : nat → A) (x : list A) (threshold : T) : raises (list A) :=
  let out := empty_like mem x in
  match for_range (zero_clamp_body x threshold) (seq 0 (length out)) out with
  | Normal out' => ret out'
  | Raised e _ => raise e
  end.

(** [np.abs(x)], [a > threshold] and [np.where(cond, x, y)] with a scalar
    [y], on whole arrays. *)
Definition np_abs (x : list A) : list A := abs <$> x.
Definition np_greater (a : list A) (threshold : T) : list bool :=
  (λ ai, gt ai threshold) <$> a.
Definition np_where (cond : list bool) (x : list A) (y : A) : list A :=
  zip_with (λ (c : bool) xi, if c then xi else y) cond x.

(** [def np_zero_clamp(x, threshold):
       return np.where(np.abs(x) > threshold, x, 0)] *)
Definition np_zero_clamp (x : list A) (threshold : T) : list A :=
  np_where (np_greater (np_abs x) threshold) x zero.

(** [@vectorize(nopython=True)
    def ufunc_zero_clamp(x, threshold): ...], the scalar kernel. *)
Definition ufunc_zero_clamp (x : A) (threshold : T) : A :=
  if gt (abs x) threshold then x else zero.

(** A ufunc applied to an array and a scalar broadcasts the scalar. *)
Definition vectorize (f : A → T → A) (x : list A) (threshold : T) : list A :=
  (λ xi, f xi threshold) <$> x.

End Clamp.

(** ** Instances of the dtype *)

Module Float64.

Definition add : float → float → float := PrimFloat.add.
Definition zero : float := 0%float.
Definition zeros (M : nat) : list float := replicate M zero.

Definition groupby : list Z → list float → list float → outcome float :=
  groupby_python add.

Definition abs : float → float := PrimFloat.abs.
Definition gt (a b : float) : bool := PrimFloat.ltb b a.

End Float64.

(** Integer accumulation without overflow: Python integers (an array of
    [dtype=object]).  NumPy's fixed-width integers are [Int64] below. *)
Module Int.

Definition zeros (M : nat) : list Z := replicate M 0.

Definition groupby : list Z → list Z → list Z → outcome Z :=
  groupby_python Z.add.

End Int.

(** NumPy's [int64]: two's complement, additions wrap around silently. *)
Module Int64.

Definition in_range (z : Z) : Prop := - 2 ^ 63 ≤ z < 2 ^ 63.

Definition wrap_int64 (z : Z) : Z := (z + 2 ^ 63) `mod` 2 ^ 64 - 2 ^ 63.

Lemma wrap_int64_in_range (z : Z) : in_range (wrap_int64 z).
Proof.
  unfold in_range, wrap_int64.
  pose proof (Z.mod_pos_bound (z + 2 ^ 63) (2 ^ 64)). lia.
Qed.

Definition int64 : Type := dsig in_range.

Definition of_Z (z : Z) : int64 :=
  dexist (wrap_int64 z) (wrap_int64_in_range z).

Definition add (a b : int64) : int64 := of_Z (`a + `b).
Definition zero : int64 := of_Z 0.

Definition groupby : list Z → list int64 → list int64 → outcome int64 :=
  groupby_python add.

End Int64.

(** ** The notebook around the kernel *)

(** [NPIX = 50000] *)
Definition NPIX : Z := 50000.

(** [np.random.randint(low, high, n)]: [n] integers, each in
    [[low, high)]; what the draw is, is not modelled. *)
Definition randint (low high : Z) (n : nat) (sample : list Z) : Prop :=
  length sample = n ∧ Forall (λ k, low ≤ k < high) sample.

(** The values carrying index label [k], in position order. *)
Definition group {A : Type} (k : Z) (index : list Z) (value : list A) : list A :=
  (filter (λ p, p.1 = k) (zip index value)).*2.

(** The distinct index labels, ascending. *)
Definition labels (index : list Z) : list Z :=
  merge_sort Z.le (remove_dups index).

Section SkyMap.
Context {A : Type}.
Variable add : A → A → A.
Variable zero : A.

(** [m = pd.Series(value, index=index).groupby(level=0).sum()], for
    arrays of one length ([pd.Series] raises [ValueError] otherwise, and
    [m] does not exist): one entry per distinct label, in ascending label
    order, holding the sum of the values that carry the label.  pandas does
    not fix the order in which a group is summed (and skips NaN); the sum
    is written left to right here and results about its value are stated
    for exact addition, where the order is immaterial. *)
Definition series_groupby_sum (index : list Z) (value : list A) : list (Z * A) :=
  (λ k, (k, sum_list add zero (group k index value))) <$> labels index.

(** [np.zeros_like(m)] *)
Definition zeros_like {B : Type} (m : list B) : list A :=
  replicate (length m) zero.

(** [m_python = np.zeros_like(m)
     groupby_python(pixels, timeline, m_python)] *)
Definition sky_map_python (pixels : list Z) (timeline : list A) : outcome A :=
  let m := series_groupby_sum pixels timeline in
  groupby_python add pixels timeline (zeros_like m).

End SkyMap.

(** The clamp kernels on integer arrays ([a_int16], threshold [1600]). *)
Module IntClamp.

Definition abs : Z → Z := Z.abs.
Definition gt (a t : Z) : bool := bool_decide (a > t).

End IntClamp.

(** ** Sums compared within a tolerance *)

Module Tolerance.




End Tolerance.


(** ** The clamp on a [float32] array with a Python-float threshold

    A [float32] value is the binary64 float of the same value; the
    threshold (a Python float) is a binary64. *)
Module Float32.



Definition abs : float → float := PrimFloat.abs.
Definition zero : float := 0%float.



End Float32.


(** * Properties *)


(** ** Subscripts *)

Lemma adjust_index_nonneg (k : Z) (size : nat) :
  0 ≤ k < Z.of_nat size → adjust_index k size = inr (Z.to_nat k).
Proof.
  intros Hk. unfold adjust_index.
  rewrite bool_decide_eq_true_2 by (unfold accepted; lia).
  rewrite bool_decide_eq_false_2 by lia. done.
Qed.

Lemma adjust_index_neg (k : Z) (size : nat) :
  - Z.of_nat size ≤ k < 0 →
  adjust_index k size = inr (Z.to_nat (Z.of_nat size + k)).
Proof.
  intros Hk. unfold adjust_index.
  rewrite bool_decide_eq_true_2 by (unfold accepted; lia).
  rewrite bool_decide_eq_true_2 by lia.
  unfold ret. do 2 f_equal. lia.
Qed.

Lemma adjust_index_wrap (k : Z) (size : nat) :
  accepted size k →
  adjust_index k size = inr (Z.to_nat (wrap size k)) ∧
  (Z.to_nat (wrap size k) < size)%nat.
Proof.
  unfold accepted. intros Hk. unfold wrap. case_bool_decide.
  - rewrite adjust_index_neg by lia. split; [done | lia].
  - rewrite adjust_index_nonneg by lia. split; [done | lia].
Qed.

Lemma adjust_index_out (k : Z) (size : nat) :
  ¬ accepted size k →
  adjust_index k size = inl (IndexError k size).
Proof.
  intros Hk. unfold adjust_index. by rewrite bool_decide_eq_false_2.
Qed.

Lemma getitem_pos {B : Type} (a : list B) (i : nat) (x : B) :
  a !! i = Some x → getitem a (Z.of_nat i) = inr x.
Proof.
  intros Hi. pose proof (lookup_lt_Some _ _ _ Hi).
  unfold getitem. rewrite adjust_index_nonneg by lia. simpl.
  by rewrite Nat2Z.id, Hi.
Qed.

Lemma getitem_past {B : Type} (a : list B) (i : nat) :
  a !! i = None →
  getitem a (Z.of_nat i) = inl (IndexError (Z.of_nat i) (length a)).
Proof.
  intros Hi. apply lookup_ge_None in Hi.
  unfold getitem. rewrite adjust_index_out by (unfold accepted; lia). done.
Qed.

Lemma getitem_wrap {B : Type} (a : list B) (k : Z) :
  accepted (length a) k →
  ∃ x, a !! Z.to_nat (wrap (length a) k) = Some x ∧ getitem a k = inr x.
Proof.
  intros Hk. destruct (adjust_index_wrap k (length a) Hk) as [Hadj Hlt].
  destruct (lookup_lt_is_Some_2 a _ Hlt) as [x Hx].
  exists x. split; [done |]. unfold getitem. rewrite Hadj. simpl. by rewrite Hx.
Qed.

Lemma getitem_out {B : Type} (a : list B) (k : Z) :
  ¬ accepted (length a) k →
  getitem a k = inl (IndexError k (length a)).
Proof. intros Hk. unfold getitem. by rewrite adjust_index_out. Qed.

Lemma setitem_wrap {B : Type} (a : list B) (k : Z) (x : B) :
  accepted (length a) k →
  setitem a k x = inr (<[Z.to_nat (wrap (length a) k) := x]> a).
Proof.
  intros Hk. destruct (adjust_index_wrap k (length a) Hk) as [Hadj _].
  unfold setitem. by rewrite Hadj.
Qed.

Lemma drop_succ_tail {B : Type} (l : list B) (i : nat) (x : B) (l' : list B) :
  drop i l = x :: l' → drop (S i) l = l'.
Proof.
  intros Hdrop. replace (S i) with (i + 1)%nat by lia.
  by rewrite <- drop_drop, Hdrop.
Qed.

(** ** The loop and its list-recursive presentation *)

Section GroupbyFacts.
Context {A : Type}.
Variable add : A → A → A.

Lemma groupby_body_drop (index : list Z) (value : list A) (i : nat)
    (k : Z) (index' : list Z) (output : list A) :
  drop i index = k :: index' →
  groupby_body add index value i output =
    match getitem output k with
    | inl e => inl e
    | inr old =>
        match drop i value with
        | [] => inl (IndexError (Z.of_nat i) (length value))
        | v :: _ => setitem output k (add old v)
        end
    end.
Proof.
  intros Hdrop.
  assert (index !! i = Some k) as Hk.
  { rewrite <- (Nat.add_0_r i), <- lookup_drop, Hdrop. done. }
  unfold groupby_body. rewrite (getitem_pos _ _ _ Hk). simpl.
  destruct (getitem output k) as [e | old]; simpl; [done |].
  destruct (drop i value) as [| v value'] eqn:Hv.
  - apply drop_nil_inv in Hv.
    rewrite getitem_past by (by apply lookup_ge_None). done.
  - assert (value !! i = Some v) as Hvi.
    { rewrite <- (Nat.add_0_r i), <- lookup_drop, Hv. done. }
    by rewrite (getitem_pos _ _ _ Hvi).
Qed.

Lemma for_range_scan (index : list Z) (value : list A) (index' : list Z) :
  ∀ (i : nat) (output : list A),
  drop i index = index' →
  for_range (groupby_body add index value) (seq i (length index')) output
  = scan add index' (drop i value) i (length value) output.
Proof.
  induction index' as [| k index' IH]; intros i output Hdrop; [done |].
  simpl. rewrite (groupby_body_drop _ _ _ _ _ _ Hdrop).
  assert (drop (S i) index = index') as Hdrop'.
  { by apply drop_succ_tail in Hdrop. }
  destruct (getitem output k) as [e | old]; [done |].
  destruct (drop i value) as [| v value'] eqn:Hv; [done |].
  assert (drop (S i) value = value') as Hv'.
  { by apply drop_succ_tail in Hv. }
  destruct (setitem output k (add old v)) as [e | output']; [done |].
  rewrite (IH (S i) output' Hdrop'). by rewrite Hv'.
Qed.

Lemma groupby_python_scan (index : list Z) (value output : list A) :
  groupby_python add index value output
  = scan add index value 0 (length value) output.
Proof.
  unfold groupby_python. by rewrite (for_range_scan index value index 0).
Qed.

Lemma insert_as_alter (f : A → A) (l : list A) (n : nat) (x : A) :
  l !! n = Some x → <[n := f x]> l = alter f n l.
Proof.
  intros Hn. apply list_eq. intros j. destruct (decide (n = j)) as [<- | Hne].
  - rewrite list_lookup_alter_eq, Hn.
    apply list_lookup_insert_eq. by eapply lookup_lt_Some.
  - by rewrite list_lookup_insert_ne, list_lookup_alter_ne.
Qed.

Lemma length_add_into (output : list A) (p : Z * A) :
  length (add_into add output p) = length output.
Proof. apply length_alter. Qed.

Lemma length_accumulate_fold (index : list Z) (value output : list A) :
  length (accumulate_fold add index value output) = length output.
Proof.
  unfold accumulate_fold. generalize (zip index value) as ps.
  intros ps. revert output.
  induction ps as [| p ps IH]; intros output; simpl; [done |].
  by rewrite IH, length_add_into.
Qed.

(** One accepted iteration is one [add_into] at the wrapped subscript. *)
Lemma scan_accepted (k : Z) (index : list Z) (v : A) (value : list A)
    (pos size : nat) (output : list A) :
  accepted (length output) k →
  scan add (k :: index) (v :: value) pos size output
  = scan add index value (S pos) size
      (add_into add output (wrap (length output) k, v)).
Proof.
  intros Hk. simpl.
  destruct (getitem_wrap output k Hk) as (old & Hold & ->).
  rewrite (setitem_wrap output k _ Hk).
  by rewrite (insert_as_alter (λ old, add old v) _ _ _ Hold).
Qed.

(** The loop runs through any prefix of accepted subscripts. *)
Lemma scan_prefix (M : nat) (good rest : list Z) :
  Forall (accepted M) good →
  ∀ (value : list A) (pos size : nat) (output : list A),
  length output = M →
  (length good ≤ length value)%nat →
  scan add (good ++ rest) value pos size output
  = scan add rest (drop (length good) value) (pos + length good) size
      (accumulate_fold add (wrap M <$> good) value output).
Proof.
  induction 1 as [| k good Hk Hgood IH]; intros value pos size output HM Hlen.
  { simpl. by rewrite Nat.add_0_r. }
  destruct value as [| v value]; simpl in Hlen; [lia |].
  rewrite <- app_comm_cons, scan_accepted by (by rewrite HM).
  rewrite IH by (rewrite ?length_add_into; lia).
  rewrite HM. simpl length. simpl drop.
  by replace (S pos + length good)%nat with (pos + S (length good))%nat by lia.
Qed.

Lemma wrap_nonneg (M : nat) (index : list Z) :
  Forall (λ k, 0 ≤ k < Z.of_nat M) index → wrap M <$> index = index.
Proof.
  induction 1 as [| k index Hk _ IH]; [done |].
  rewrite fmap_cons. rewrite IH. unfold wrap.
  by rewrite bool_decide_eq_false_2 by lia.
Qed.

(** All subscripts accepted, enough values: the call returns. *)
Lemma groupby_python_accepted (index : list Z) (value output : list A) :
  Forall (accepted (length output)) index →
  (length index ≤ length value)%nat →
  groupby_python add index value output
  = Normal (accumulate_fold add (wrap (length output) <$> index) value output).
Proof.
  intros Hidx Hlen. rewrite groupby_python_scan.
  rewrite <- (app_nil_r index) at 1.
  by rewrite (scan_prefix (length output) index [] Hidx).
Qed.

Lemma groupby_python_valid (index : list Z) (value output : list A) :
  valid_input index value output →
  groupby_python add index value output
  = Normal (accumulate_fold add index value output).
Proof.
  intros [Hlen Hidx]. rewrite groupby_python_accepted.
  - by rewrite (wrap_nonneg _ _ Hidx).
  - clear Hlen. induction Hidx; constructor; [unfold accepted; lia | done].
  - lia.
Qed.

(** The first rejected subscript stops the loop. *)
Lemma groupby_python_rejected (good : list Z) (k : Z) (rest : list Z)
    (value output : list A) :
  Forall (accepted (length output)) good →
  ¬ accepted (length output) k →
  (length good ≤ length value)%nat →
  groupby_python add (good ++ k :: rest) value output
  = Raised (IndexError k (length output))
      (accumulate_fold add (wrap (length output) <$> good) value output).
Proof.
  intros Hgood Hk Hlen. rewrite groupby_python_scan.
  rewrite (scan_prefix (length output) good (k :: rest) Hgood) by done.
  simpl. rewrite getitem_out by (by rewrite length_accumulate_fold).
  by rewrite length_accumulate_fold.
Qed.

(** Running out of values stops the loop, after the target was read. *)
Lemma groupby_python_short (index : list Z) (value output : list A) :
  Forall (accepted (length output)) (take (S (length value)) index) →
  (length value < length index)%nat →
  groupby_python add index value output
  = Raised (IndexError (Z.of_nat (length value)) (length value))
      (accumulate_fold add
         (wrap (length output) <$> take (length value) index) value output).
Proof.
  intros Hidx Hlen. rewrite groupby_python_scan.
  destruct (lookup_lt_is_Some_2 index (length value) Hlen) as [k Hk].
  rewrite (take_S_r _ _ _ Hk) in Hidx.
  apply Forall_app in Hidx as [Hgood Hacc].
  rewrite Forall_singleton in Hacc.
  rewrite <- (take_drop (length value) index) at 1.
  assert (length (take (length value) index) = length value) as Htake.
  { rewrite length_take. lia. }
  rewrite (scan_prefix (length output) _ _ Hgood) by (done || lia).
  rewrite Htake, drop_all, (drop_S _ _ _ Hk). simpl.
  destruct (getitem_wrap (accumulate_fold add
    (wrap (length output) <$> take (length value) index) value output) k)
    as (old & _ & ->); [by rewrite length_accumulate_fold |].
  done.
Qed.

(** Surplus values are never read. *)
Lemma scan_surplus (index : list Z) :
  ∀ (value : list A) (pos size size' : nat) (output : list A),
  (length index ≤ length value)%nat →
  scan add index value pos size output
  = scan add index (take (length index) value) pos size' output.
Proof.
  induction index as [| k index IH]; intros value pos size size' output Hlen;
    [done |].
  destruct value as [| v value]; simpl in Hlen; [lia |].
  simpl. destruct (getitem output k) as [e | old]; [done |].
  destruct (setitem output k (add old v)) as [e | output']; [done |].
  apply IH. lia.
Qed.

Lemma groupby_python_surplus (index : list Z) (value output : list A) :
  (length index ≤ length value)%nat →
  groupby_python add index value output
  = groupby_python add index (take (length index) value) output.
Proof.
  intros Hlen. rewrite !groupby_python_scan. by apply scan_surplus.
Qed.

End GroupbyFacts.

(** ** The fold, bucket by bucket *)

Section FoldFacts.
Context {A : Type}.
Variable add : A → A → A.

Lemma add_into_other (output : list A) (j : Z) (v : A) (k : nat) :
  Z.to_nat j ≠ k → add_into add output (j, v) !! k = output !! k.
Proof. intros Hne. unfold add_into. simpl. by apply list_lookup_alter_ne. Qed.

Lemma add_into_same (output : list A) (v : A) (k : nat) :
  add_into add output (Z.of_nat k, v) !! k = (λ old, add old v) <$> output !! k.
Proof.
  unfold add_into. simpl. rewrite Nat2Z.id. apply list_lookup_alter_eq.
Qed.

(** A bucket no subscript selects keeps its contents. *)
Lemma accumulate_fold_frame (k : nat) (index : list Z) :
  Forall (λ j, 0 ≤ j) index →
  Z.of_nat k ∉ index →
  ∀ value output : list A,
  accumulate_fold add index value output !! k = output !! k.
Proof.
  unfold accumulate_fold.
  induction 1 as [| j index Hj _ IH]; intros Hnotin value output; [done |].
  destruct value as [| v value]; [done |]. simpl.
  apply not_elem_of_cons in Hnotin as [Hne Hnotin].
  rewrite IH by done. apply add_into_other. lia.
Qed.

(** A bucket holds its initial contents plus its values, added in position
    order. *)
Lemma accumulate_fold_bucket (k : nat) (index : list Z) :
  Forall (λ j, 0 ≤ j) index →
  ∀ (value output : list A) (a : A),
  output !! k = Some a →
  accumulate_fold add index value output !! k
  = Some (fold_left add (values_at k index value) a).
Proof.
  unfold accumulate_fold, values_at.
  induction 1 as [| j index Hj _ IH]; intros value output a Ha; [done |].
  destruct value as [| v value]; [done |]. simpl zip. simpl fold_left at 1.
  destruct (decide (j = Z.of_nat k)) as [-> | Hne].
  - rewrite filter_cons_True by done. simpl.
    apply IH. by rewrite add_into_same, Ha.
  - rewrite filter_cons_False by done.
    apply IH. rewrite add_into_other by lia. done.
Qed.

Section Exact.
Local Arguments sum_list : simpl never.
Context (zero : A) (Hexact : ExactAdd add zero).

Lemma add_assoc (a b c : A) : add a (add b c) = add (add a b) c.
Proof. by destruct Hexact. Qed.

Lemma add_comm (a b : A) : add a b = add b a.
Proof. by destruct Hexact. Qed.

Lemma add_zero_l (a : A) : add zero a = a.
Proof. by destruct Hexact. Qed.

Lemma add_zero_r (a : A) : add a zero = a.
Proof. by rewrite add_comm, add_zero_l. Qed.

Lemma fold_left_add_start (l : list A) (a b : A) :
  fold_left add l (add a b) = add a (fold_left add l b).
Proof.
  revert b. induction l as [| c l IH]; intros b; simpl; [done |].
  by rewrite <- add_assoc, IH.
Qed.

Lemma fold_left_add_sum (l : list A) (a : A) :
  fold_left add l a = add a (sum_list add zero l).
Proof.
  unfold sum_list. by rewrite <- fold_left_add_start, add_zero_r.
Qed.

Lemma sum_list_cons (x : A) (l : list A) :
  sum_list add zero (x :: l) = add x (sum_list add zero l).
Proof.
  unfold sum_list at 1. simpl. by rewrite add_zero_l, fold_left_add_sum.
Qed.



End Exact.
End FoldFacts.

Global Instance Z_exact_add : ExactAdd Z.add 0.
Proof. split; intros; lia. Qed.


Lemma wrap_int64_add_l (a b : Z) :
  Int64.wrap_int64 (Int64.wrap_int64 a + b) = Int64.wrap_int64 (a + b).
Proof.
  unfold Int64.wrap_int64.
  replace ((a + 2 ^ 63) `mod` 2 ^ 64 - 2 ^ 63 + b + 2 ^ 63)
    with ((a + 2 ^ 63) `mod` 2 ^ 64 + b) by lia.
  replace (a + b + 2 ^ 63) with ((a + 2 ^ 63) + b) by lia.
  by rewrite Zplus_mod_idemp_l.
Qed.



(** ** The clamp kernels *)

Section ClampFacts.
Context {A T : Type}.
Variable abs : A → A.
Variable gt : A → T → bool.
Variable zero : A.

Lemma length_empty_like (mem : nat → A) (x : list A) :
  length (empty_like mem x) = length x.
Proof. unfold empty_like. by rewrite length_fmap, length_seq. Qed.

Lemma zero_clamp_body_at (x : list A) (threshold : T) (i : nat) (xi : A)
    (out : list A) :
  x !! i = Some xi →
  (i < length out)%nat →
  zero_clamp_body abs gt zero x threshold i out
  = inr (<[i := ufunc_zero_clamp abs gt zero xi threshold]> out).
Proof.
  intros Hxi Hi. unfold zero_clamp_body, ufunc_zero_clamp, setitem.
  rewrite (getitem_pos _ _ _ Hxi). simpl.
  rewrite adjust_index_nonneg by lia. simpl. rewrite Nat2Z.id.
  by destruct (gt (abs xi) threshold).
Qed.

(** After the iterations [i, i + n) the buffer holds the clamped elements
    from [i] on, and what it held before below [i]. *)
Lemma zero_clamp_loop (x : list A) (threshold : T) (n : nat) :
  ∀ (i : nat) (out : list A),
  (i + n)%nat = length x →
  length out = length x →
  for_range (zero_clamp_body abs gt zero x threshold) (seq i n) out
  = Normal (take i out ++
            ((λ xi, ufunc_zero_clamp abs gt zero xi threshold) <$> drop i x)).
Proof.
  induction n as [| n IH]; intros i out Hi Hlen; simpl.
  - rewrite drop_ge, take_ge by lia. by rewrite app_nil_r.
  - destruct (lookup_lt_is_Some_2 x i) as [xi Hxi]; [lia |].
    rewrite (zero_clamp_body_at _ _ _ _ _ Hxi) by lia.
    rewrite IH by (rewrite ?length_insert; lia).
    rewrite (drop_S _ _ _ Hxi), fmap_cons.
    rewrite (take_S_r _ _ (ufunc_zero_clamp abs gt zero xi threshold))
      by (apply list_lookup_insert_eq; lia).
    rewrite take_insert_ge by lia. by rewrite <- app_assoc.
Qed.

Lemma zero_clamp_vectorize (mem : nat → A) (x : list A) (threshold : T) :
  zero_clamp abs gt zero mem x threshold
  = inr (vectorize (ufunc_zero_clamp abs gt zero) x threshold).
Proof.
  unfold zero_clamp. rewrite length_empty_like.
  rewrite zero_clamp_loop by (by rewrite ?length_empty_like).
  done.
Qed.

Lemma np_zero_clamp_vectorize (x : list A) (threshold : T) :
  np_zero_clamp abs gt zero x threshold
  = vectorize (ufunc_zero_clamp abs gt zero) x threshold.
Proof.
  unfold np_zero_clamp, np_where, np_greater, np_abs, vectorize.
  induction x as [| xi x IH]; [done |].
  rewrite !fmap_cons. simpl. by rewrite IH.
Qed.

End ClampFacts.

(** ** Deciding where the loop stops *)

Lemma first_rejected (M : nat) (index : list Z) :
  ¬ Forall (accepted M) index →
  ∃ good k rest, index = good ++ k :: rest ∧
    Forall (accepted M) good ∧ ¬ accepted M k.
Proof.
  induction index as [| k index IH]; intros Hnot.
  { destruct Hnot. constructor. }
  destruct (decide (accepted M k)) as [Hk | Hk].
  - destruct IH as (good & k' & rest & -> & Hgood & Hk').
    { intros Hall. apply Hnot. by constructor. }
    exists (k :: good), k', rest. repeat split; [by constructor | done].
  - exists [], k, index. repeat split; [constructor | done].
Qed.

(** ** The kernels on small inputs *)

Example groupby_last_bucket :
  Float64.groupby [-1] [1.0]%float [0.0; 0.0]%float = Normal [0.0; 1.0]%float.
Proof. vm_compute. reflexivity. Qed.

Example groupby_below_range :
  Float64.groupby [0; -3] [1.0; 2.0]%float [0.0; 0.0]%float
  = Raised (IndexError (-3) 2) [1.0; 0.0]%float.
Proof. vm_compute. reflexivity. Qed.

Example groupby_index_before_value :
  Float64.groupby [0; 7] [1.0]%float [0.0; 0.0]%float
  = Raised (IndexError 7 2) [1.0; 0.0]%float.
Proof. vm_compute. reflexivity. Qed.

Example groupby_rounds :
  Float64.groupby [0; 0] [1.0; 1.0]%float [1e16]%float = Normal [1e16]%float.
Proof. vm_compute. reflexivity. Qed.

Example groupby_int :
  Int.groupby [0; 2; 0; 1] [1; 5; 3; 2] [10; 20; 30] = Normal [14; 22; 35].
Proof. vm_compute. reflexivity. Qed.

Example groupby_int64_wraps :
  proj1_sig <$> buffer (Int64.groupby [0; 0] (Int64.of_Z <$> [2 ^ 62; 2 ^ 62])
                          [Int64.of_Z (2 ^ 62)])
  = [- 2 ^ 62].
Proof. vm_compute. reflexivity. Qed.

Example zero_clamp_float64 :
  zero_clamp Float64.abs Float64.gt Float64.zero (λ _, 42.0%float)
    [0.125; -0.5; nan; 0.25; 2.0]%float 0.25%float
  = inr [0.0; -0.5; 0.0; 0.0; 2.0]%float.
Proof. vm_compute. reflexivity. Qed.

Example np_zero_clamp_float64 :
  np_zero_clamp Float64.abs Float64.gt Float64.zero
    [0.125; -0.5; nan; 0.25; 2.0]%float 0.25%float
  = [0.0; -0.5; 0.0; 0.0; 2.0]%float.
Proof. vm_compute. reflexivity. Qed.

(** * The claims *)




(** C8. On [indices = [0, 2, 0, 1]], [values = [1.0, 5.0, 3.0, 2.0]],
    three buckets initially zero, the kernel leaves [[4.0, 2.0, 5.0]]. *)
Theorem concrete_scenario :
  Float64.groupby [0; 2; 0; 1] [1.0; 5.0; 3.0; 2.0]%float (Float64.zeros 3)
  = Normal [4.0; 2.0; 5.0]%float.
Proof. vm_compute. reflexivity. Qed.

(** C4. On valid input the kernel, interpreted or compiled, returns the
    left-to-right fold that adds [values[i]] into [output[indices[i]]] for
    [i = 0, 1, ..., N-1] in that order. *)
Theorem single_linear_pass {A : Type} (add : A → A → A)
    (index : list Z) (value output : list A) :
  valid_input index value output →
  groupby_python add index value output
    = Normal (accumulate_fold add index value output) ∧
  groupby_numba add index value output
    = Some (accumulate_fold add index value output).
Proof.
  intros Hvalid. unfold groupby_numba.
  by rewrite (groupby_python_valid add _ _ _ Hvalid).
Qed.

Lemma single_linear_pass_witness :
  Float64.groupby [0; 2; 0; 1] [1.0; 5.0; 3.0; 2.0]%float (Float64.zeros 3)
    = Normal (accumulate_fold Float64.add [0; 2; 0; 1]
                [1.0; 5.0; 3.0; 2.0]%float (Float64.zeros 3)) ∧
  groupby_numba Float64.add [0; 2; 0; 1] [1.0; 5.0; 3.0; 2.0]%float
      (Float64.zeros 3)
    = Some (accumulate_fold Float64.add [0; 2; 0; 1]
              [1.0; 5.0; 3.0; 2.0]%float (Float64.zeros 3)).
Proof.
  apply (single_linear_pass Float64.add).
  split; [reflexivity |]. repeat constructor; simpl; lia.
Defined.

(** C1, as stated, fails on [float64]: with [initial = [1e16]] and two
    contributions of [1.0] to bucket 0 the kernel leaves [1e16] (each
    addition rounds back), while [initial[0] + sum(values)] is [1e16 + 2]. *)
Lemma bucket_sums_float64_fails :
  valid_input [0; 0] [1.0; 1.0]%float [1e16]%float ∧
  ¬ bucket_sums Float64.add Float64.zero [0; 0] [1.0; 1.0]%float [1e16]%float.
Proof.
  split.
  { split; [reflexivity |]. repeat constructor; simpl; lia. }
  intros Hclaim.
  destruct (Hclaim 0%nat 1e16%float eq_refl) as (output & Hrun & Hk).
  apply (f_equal buffer) in Hrun. vm_compute in Hrun. subst output.
  apply (f_equal (from_option (PrimFloat.eqb 1e16%float) false)) in Hk.
  vm_compute in Hk. discriminate.
Qed.

(** C1, amended. On valid input the kernel returns a buffer of length [M]
    in which bucket [k] holds [initial[k]] with the values of index [k]
    added to it one by one in position order; where addition is exact
    (integer accumulation) that is [initial[k] + sum(values[i] for i where
    indices[i] == k)]. *)
Theorem bucket_correctness {A : Type} (add : A → A → A)
    (index : list Z) (value initial : list A) :
  valid_input index value initial →
  ∃ output,
    groupby_python add index value initial = Normal output ∧
    length output = length initial ∧
    ∀ k init_k, initial !! k = Some init_k →
      output !! k = Some (fold_left add (values_at k index value) init_k) ∧
      ∀ zero, ExactAdd add zero →
        output !! k
        = Some (add init_k (sum_list add zero (values_at k index value))).
Proof.
  intros Hvalid. exists (accumulate_fold add index value initial).
  split; [by apply groupby_python_valid |].
  split; [apply length_accumulate_fold |].
  intros k init_k Hk.
  assert (accumulate_fold add index value initial !! k
          = Some (fold_left add (values_at k index value) init_k)) as Hbucket.
  { apply accumulate_fold_bucket; [| done].
    destruct Hvalid as [_ Hidx]. clear Hk.
    induction Hidx; constructor; [lia | done]. }
  split; [done |]. intros zero Hexact.
  by rewrite Hbucket, (fold_left_add_sum add zero Hexact).
Qed.

Lemma bucket_correctness_witness :
  ∃ output,
    Int.groupby [0; 2; 0; 1] [1; 5; 3; 2] [10; 20; 30] = Normal output ∧
    length output = 3%nat ∧
    output !! 0%nat = Some (10 + sum_list Z.add 0 [1; 3]).
Proof.
  destruct (bucket_correctness Z.add [0; 2; 0; 1] [1; 5; 3; 2] [10; 20; 30])
    as (output & Hrun & Hlen & Hbuckets).
  { split; [reflexivity |]. repeat constructor; simpl; lia. }
  exists output. split; [exact Hrun |]. split; [exact Hlen |].
  destruct (Hbuckets 0%nat 10 eq_refl) as [_ Hexact].
  exact (Hexact 0 Z_exact_add).
Defined.

(** C6. On valid input a bucket that no index selects holds its initial
    value afterwards; with empty index and value arrays the whole buffer is
    returned as it was. *)
Theorem empty_bucket_identity {A : Type} (add : A → A → A) :
  (∀ (index : list Z) (value initial : list A),
     valid_input index value initial →
     ∃ output,
       groupby_python add index value initial = Normal output ∧
       ∀ k : nat, (k < length initial)%nat → Z.of_nat k ∉ index →
         output !! k = initial !! k) ∧
  (∀ initial : list A, groupby_python add [] [] initial = Normal initial).
Proof.
  split; [| done].
  intros index value initial Hvalid.
  exists (accumulate_fold add index value initial).
  split; [by apply groupby_python_valid |].
  intros k _ Hnotin. apply accumulate_fold_frame; [| done].
  destruct Hvalid as [_ Hidx]. clear Hnotin.
  induction Hidx; constructor; [lia | done].
Qed.

Lemma empty_bucket_identity_witness :
  ∃ output,
    Float64.groupby [0; 2; 0] [1.0; 5.0; 3.0]%float [7.0; 8.0; 9.0]%float
      = Normal output ∧
    output !! 1%nat = Some 8.0%float.
Proof.
  destruct (proj1 (empty_bucket_identity Float64.add)
              [0; 2; 0] [1.0; 5.0; 3.0]%float [7.0; 8.0; 9.0]%float)
    as (output & Hrun & Hframe).
  { split; [reflexivity |]. repeat constructor; simpl; lia. }
  exists output. split; [exact Hrun |].
  rewrite (Hframe 1%nat); [reflexivity | simpl; lia |].
  intros Hin. repeat (apply elem_of_cons in Hin as [Hin | Hin]; [lia |]).
  by apply elem_of_nil in Hin.
Defined.




(** C2, as stated, fails: the index [-1] lies outside [[0, 1)], and the
    kernel accepts it, adding the value into the last bucket. *)
Lemma negative_index_not_rejected :
  ¬ rejects_out_of_range Float64.add [-1] [1.0]%float [0.0]%float.
Proof.
  intros Hclaim. destruct Hclaim as (e & output' & Hrun).
  - exists 0%nat, (-1). split; [reflexivity | simpl; lia].
  - apply (f_equal raised) in Hrun. vm_compute in Hrun. discriminate.
Qed.

(** C2, amended. Whenever some index lies outside [[-M, M)] the kernel
    raises [IndexError]; when the first such index stands at a position the
    value array reaches, the error carries that index value and the buffer
    size [M], the earlier pairs having been accumulated.  In particular
    [accumulate([M], [v], M, zeros)] raises [IndexError] and leaves the
    zeros. *)
Theorem out_of_range_rejected {A : Type} (add : A → A → A) :
  (∀ (index : list Z) (value output : list A),
     (∃ i k, index !! i = Some k ∧ ¬ accepted (length output) k) →
     ∃ k size output',
       groupby_python add index value output
       = Raised (IndexError k size) output') ∧
  (∀ (good : list Z) (k : Z) (rest : list Z) (value output : list A),
     Forall (accepted (length output)) good →
     ¬ accepted (length output) k →
     (length good ≤ length value)%nat →
     groupby_python add (good ++ k :: rest) value output
     = Raised (IndexError k (length output))
         (accumulate_fold add (wrap (length output) <$> good) value output)) ∧
  (∀ (M : nat) (v zero : A),
     groupby_python add [Z.of_nat M] [v] (replicate M zero)
     = Raised (IndexError (Z.of_nat M) M) (replicate M zero)).
Proof.
  split; [| split].
  - intros index value output (i & k & Hi & Hk).
    destruct (first_rejected (length output) index)
      as (good & k' & rest & -> & Hgood & Hk').
    { intros Hall. apply Hk. exact (Forall_lookup_1 _ _ _ _ Hall Hi). }
    destruct (decide (length good ≤ length value)%nat) as [Hlen | Hlen].
    + eexists _, _, _. by apply groupby_python_rejected.
    + eexists _, _, _. apply groupby_python_short.
      * rewrite take_app_le by lia. by apply Forall_take.
      * rewrite length_app. simpl. lia.
  - intros good k rest value output. apply groupby_python_rejected.
  - intros M v zero.
    pose proof (groupby_python_rejected add [] (Z.of_nat M) [] [v]
                  (replicate M zero)) as Hrun.
    rewrite length_replicate in Hrun.
    apply Hrun; [constructor | unfold accepted; lia | simpl; lia].
Qed.

Lemma out_of_range_rejected_witness :
  Float64.groupby ([0; -1] ++ 3 :: [1]) [1.0; 5.0; 3.0; 2.0]%float
    (Float64.zeros 3)
  = Raised (IndexError 3 3) [1.0; 0.0; 5.0]%float.
Proof.
  apply (proj1 (proj2 (out_of_range_rejected Float64.add))
           [0; -1] 3 [1] [1.0; 5.0; 3.0; 2.0]%float (Float64.zeros 3)).
  - repeat constructor; simpl; lia.
  - unfold accepted. simpl. lia.
  - simpl. lia.
Defined.

(** C3, as stated, fails both ways: with a value array one short the call
    raises after it has added the first value into the buffer, and with a
    value array one longer it raises nothing. *)
Lemma length_mismatch_not_rejected :
  ¬ rejects_length_mismatch Float64.add [0; 1] [1.0]%float (Float64.zeros 5) ∧
  ¬ rejects_length_mismatch Float64.add [0] [1.0; 2.0]%float (Float64.zeros 5).
Proof.
  split; intros Hclaim; destruct Hclaim as (e & Hrun); try (simpl; lia).
  - apply (f_equal (λ r, from_option (PrimFloat.eqb 0%float) false
                           (buffer r !! 0%nat))) in Hrun.
    vm_compute in Hrun. discriminate.
  - apply (f_equal raised) in Hrun. vm_compute in Hrun. discriminate.
Qed.

(** C3, amended. With every index in [[-M, M)]: when the value array is
    the shorter one, the kernel raises [IndexError] at the first position
    the value array lacks, the pairs before it having been accumulated
    into the buffer; when the value array is the longer one, no error is
    raised for it and the surplus values are not read. *)
Theorem length_mismatch_behaviour {A : Type} (add : A → A → A) :
  (∀ (index : list Z) (value output : list A),
     Forall (accepted (length output)) index →
     (length value < length index)%nat →
     groupby_python add index value output
     = Raised (IndexError (Z.of_nat (length value)) (length value))
         (accumulate_fold add
            (wrap (length output) <$> take (length value) index)
            value output)) ∧
  (∀ (index : list Z) (value output : list A),
     (length index < length value)%nat →
     groupby_python add index value output
     = groupby_python add index (take (length index) value) output).
Proof.
  split.
  - intros index value output Hidx. apply groupby_python_short.
    by apply Forall_take.
  - intros index value output Hlen. apply groupby_python_surplus. lia.
Qed.

Lemma length_mismatch_behaviour_witness :
  Float64.groupby [0; 1] [1.0]%float (Float64.zeros 5)
  = Raised (IndexError 1 1) [1.0; 0.0; 0.0; 0.0; 0.0]%float.
Proof.
  apply (proj1 (length_mismatch_behaviour Float64.add)
           [0; 1] [1.0]%float (Float64.zeros 5)).
  - repeat constructor; simpl; lia.
  - simpl. lia.
Defined.

(** C9. With aligned arrays, when every index lies in [[-M, M)] the
    reference kernel raises nothing and a negative index [k] adds its value
    into [output[M + k]]; the kernel raises exactly when some index is at
    least [M] or below [-M]. *)
Theorem negative_index_wraparound {A : Type} (add : A → A → A)
    (index : list Z) (value output : list A) :
  length index = length value →
  (Forall (accepted (length output)) index →
   groupby_python add index value output
   = Normal (accumulate_fold add (wrap (length output) <$> index) value output)) ∧
  (∀ k : Z, k < 0 → wrap (length output) k = Z.of_nat (length output) + k) ∧
  ((∃ e output', groupby_python add index value output = Raised e output') ↔
   (∃ i k, index !! i = Some k ∧
      (Z.of_nat (length output) ≤ k ∨ k < - Z.of_nat (length output)))).
Proof.
  intros Hlen.
  assert (Forall (accepted (length output)) index →
          groupby_python add index value output
          = Normal (accumulate_fold add (wrap (length output) <$> index)
                      value output)) as Hok.
  { intros Hidx. apply groupby_python_accepted; [done | lia]. }
  split; [done |]. split.
  { intros k Hk. unfold wrap. by rewrite bool_decide_eq_true_2. }
  split.
  - intros (e & output' & Hrun).
    destruct (decide (Forall (accepted (length output)) index)) as [Hall | Hnot].
    { rewrite Hok in Hrun by done. discriminate. }
    destruct (first_rejected _ _ Hnot) as (good & k & rest & -> & _ & Hk).
    exists (length good), k. split.
    + by rewrite list_lookup_middle.
    + unfold accepted in Hk. lia.
  - intros (i & k & Hi & Hk).
    destruct (decide (Forall (accepted (length output)) index)) as [Hall | Hnot].
    { pose proof (Forall_lookup_1 _ _ _ _ Hall Hi) as Hacc.
      unfold accepted in Hacc. lia. }
    destruct (first_rejected _ _ Hnot) as (good & k' & rest & -> & Hgood & Hk').
    eexists _, _. apply groupby_python_rejected; [done | done |].
    rewrite length_app in Hlen. lia.
Qed.

Lemma negative_index_wraparound_witness :
  Float64.groupby [-1; 0; -3] [1.0; 5.0; 3.0]%float (Float64.zeros 3)
  = Normal [8.0; 0.0; 1.0]%float.
Proof.
  apply (proj1 (negative_index_wraparound Float64.add
                  [-1; 0; -3] [1.0; 5.0; 3.0]%float (Float64.zeros 3) eq_refl)).
  repeat constructor; simpl; lia.
Defined.

(** * Further properties of the kernels *)

Section GroupbyMore.
Context {A : Type}.
Variable add : A → A → A.

Lemma setitem_length (a : list A) (k : Z) (x : A) (a' : list A) :
  setitem a k x = inr a' → length a' = length a.
Proof.
  unfold setitem. destruct (adjust_index k (length a)) as [e | n]; simpl;
    [done |].
  intros [= <-]. apply length_insert.
Qed.

Lemma scan_length (index : list Z) :
  ∀ (value : list A) (pos size : nat) (output : list A),
  length (buffer (scan add index value pos size output)) = length output.
Proof.
  induction index as [| k index IH]; intros value pos size output; [done |].
  simpl. destruct (getitem output k) as [e | old]; [done |].
  destruct value as [| v value]; [done |].
  destruct (setitem output k (add old v)) as [e | output'] eqn:Hset; [done |].
  rewrite IH. by eapply setitem_length.
Qed.

(** The position and size carried along only serve the error raised when
    the values run out. *)
Lemma scan_enough_values (index : list Z) :
  ∀ (value : list A) (pos size pos' size' : nat) (output : list A),
  (length index ≤ length value)%nat →
  scan add index value pos size output
  = scan add index value pos' size' output.
Proof.
  induction index as [| k index IH];
    intros value pos size pos' size' output Hlen; [done |].
  destruct value as [| v value]; simpl in Hlen; [lia |].
  simpl. destruct (getitem output k) as [e | old]; [done |].
  destruct (setitem output k (add old v)) as [e | output']; [done |].
  apply IH. lia.
Qed.

Lemma scan_app (index1 index2 : list Z) (value2 : list A) :
  ∀ (value1 : list A) (pos size size1 : nat) (output : list A),
  length index1 = length value1 →
  scan add (index1 ++ index2) (value1 ++ value2) pos size output
  = match scan add index1 value1 pos size1 output with
    | Normal output' =>
        scan add index2 value2 (pos + length index1) size output'
    | Raised e output' => Raised e output'
    end.
Proof.
  induction index1 as [| k index1 IH];
    intros value1 pos size size1 output Hlen.
  { destruct value1; [| done]. simpl. by rewrite Nat.add_0_r. }
  destruct value1 as [| v value1]; [done |]. simpl.
  destruct (getitem output k) as [e | old]; [done |].
  destruct (setitem output k (add old v)) as [e | output']; [done |].
  rewrite (IH value1 (S pos) size size1) by (simpl in Hlen; lia).
  destruct (scan add index1 value1 (S pos) size1 output'); [| done].
  by replace (S pos + length index1)%nat with (pos + S (length index1))%nat
    by lia.
Qed.

Lemma scan_raised (index : list Z) :
  ∀ (value : list A) (pos size : nat) (output : list A) (e : exn)
    (output' : list A),
  scan add index value pos size output = Raised e output' →
  ∃ (n : nat) (k : Z),
    index !! n = Some k ∧
    (∀ size', scan add (take n index) (take n value) pos size' output
              = Normal output') ∧
    ((¬ accepted (length output) k ∧ e = IndexError k (length output)) ∨
     (accepted (length output) k ∧ n = length value ∧
      e = IndexError (Z.of_nat (pos + n)) size)).
Proof.
  induction index as [| k index IH];
    intros value pos size output e output' Hrun; [done |].
  destruct (decide (accepted (length output) k)) as [Hk | Hk].
  - destruct value as [| v value].
    + simpl in Hrun. destruct (getitem_wrap output k Hk) as (old & _ & Hget).
      rewrite Hget in Hrun. injection Hrun as <- <-.
      exists 0%nat, k. split; [done |]. split; [done |]. right.
      by rewrite Nat.add_0_r.
    + rewrite scan_accepted in Hrun by done.
      destruct (IH _ _ _ _ _ _ Hrun) as (n & k' & Hn & Hpre & Herr).
      rewrite length_add_into in Herr.
      exists (S n), k'. split; [done |]. split.
      * intros size'. simpl take. by rewrite scan_accepted.
      * destruct Herr as [Herr | (Hacc & -> & ->)]; [by left | right].
        split; [done |]. split; [done |]. do 2 f_equal. lia.
  - simpl in Hrun. rewrite (getitem_out output k Hk) in Hrun.
    injection Hrun as <- <-.
    exists 0%nat, k. split; [done |]. split; [done |]. by left.
Qed.

End GroupbyMore.

(** X1. The kernel never resizes the buffer: whether it returns or raises,
    the buffer it leaves has the length of the one it was given. *)
Theorem buffer_length_kept {A : Type} (add : A → A → A)
    (index : list Z) (value output : list A) :
  length (buffer (groupby_python add index value output)) = length output.
Proof. rewrite groupby_python_scan. apply scan_length. Qed.

(** X2. A timeline may be accumulated in chunks: with aligned chunks, the
    kernel on the concatenated arrays ends as the kernel on the second chunk
    started from the buffer the first chunk left, and raises what the first
    chunk raises. *)
Theorem accumulate_in_chunks {A : Type} (add : A → A → A)
    (index1 index2 : list Z) (value1 value2 output : list A) :
  length index1 = length value1 →
  (length index2 ≤ length value2)%nat →
  groupby_python add (index1 ++ index2) (value1 ++ value2) output
  = match groupby_python add index1 value1 output with
    | Normal output' => groupby_python add index2 value2 output'
    | Raised e output' => Raised e output'
    end.
Proof.
  intros Hlen1 Hlen2. rewrite !groupby_python_scan.
  rewrite (scan_app add index1 index2 value2 value1 0
             (length (value1 ++ value2)) (length value1) output Hlen1).
  destruct (scan add index1 value1 0 (length value1) output); [| done].
  rewrite groupby_python_scan. by apply scan_enough_values.
Qed.

Lemma accumulate_in_chunks_witness :
  Float64.groupby ([0; 2] ++ [0; 1]) ([1.0; 5.0] ++ [3.0; 2.0])%float
    (Float64.zeros 3)
  = match Float64.groupby [0; 2] [1.0; 5.0]%float (Float64.zeros 3) with
    | Normal output' => Float64.groupby [0; 1] [3.0; 2.0]%float output'
    | Raised e output' => Raised e output'
    end.
Proof.
  apply (accumulate_in_chunks Float64.add [0; 2] [0; 1]
           [1.0; 5.0]%float [3.0; 2.0]%float (Float64.zeros 3)).
  - reflexivity.
  - simpl. lia.
Defined.

(** X3. An exception leaves no torn write: when the kernel raises, it does
    so at some position [n] of the index array, the buffer holds exactly
    what the kernel returns on the first [n] pairs, and the error is either
    the subscript [index[n]] rejected by the buffer or, that subscript
    being accepted, position [n] missing from the value array. *)
Theorem raised_after_prefix {A : Type} (add : A → A → A)
    (index : list Z) (value output : list A) (e : exn) (output' : list A) :
  groupby_python add index value output = Raised e output' →
  ∃ (n : nat) (k : Z),
    index !! n = Some k ∧
    groupby_python add (take n index) (take n value) output = Normal output' ∧
    ((¬ accepted (length output) k ∧ e = IndexError k (length output)) ∨
     (accepted (length output) k ∧ n = length value ∧
      e = IndexError (Z.of_nat n) (length value))).
Proof.
  rewrite groupby_python_scan. intros Hrun.
  destruct (scan_raised add _ _ _ _ _ _ _ Hrun) as (n & k & Hn & Hpre & Herr).
  exists n, k. split; [done |]. split; [| done].
  rewrite groupby_python_scan. apply Hpre.
Qed.

Lemma raised_after_prefix_witness :
  ∃ (n : nat) (k : Z),
    [0; 2; 5; 1] !! n = Some k ∧
    Float64.groupby (take n [0; 2; 5; 1])
      (take n [1.0; 5.0; 3.0; 2.0]%float) (Float64.zeros 3)
    = Normal [1.0; 0.0; 5.0]%float ∧
    ((¬ accepted (length (Float64.zeros 3)) k ∧
      IndexError 5 3 = IndexError k (length (Float64.zeros 3))) ∨
     (accepted (length (Float64.zeros 3)) k ∧
      n = length [1.0; 5.0; 3.0; 2.0]%float ∧
      IndexError 5 3
      = IndexError (Z.of_nat n) (length [1.0; 5.0; 3.0; 2.0]%float))).
Proof.
  apply (raised_after_prefix Float64.add [0; 2; 5; 1]
           [1.0; 5.0; 3.0; 2.0]%float (Float64.zeros 3)
           (IndexError 5 3) [1.0; 0.0; 5.0]%float).
  vm_compute. reflexivity.
Defined.

Section ExactMore.
Context {A : Type}.
Variable add : A → A → A.
Variable zero : A.
Hypothesis Hexact : ExactAdd add zero.

Lemma add_into_comm (output : list A) (p q : Z * A) :
  add_into add (add_into add output p) q
  = add_into add (add_into add output q) p.
Proof.
  unfold add_into.
  destruct (decide (Z.to_nat q.1 = Z.to_nat p.1)) as [Heq | Hne].
  - rewrite Heq, !list_alter_alter_eq. apply list_alter_ext; [| done].
    intros old _. simpl.
    rewrite <- !(add_assoc add zero Hexact). f_equal.
    apply (add_comm add zero Hexact).
  - by apply list_alter_alter_ne.
Qed.

Lemma fold_add_into_permutation (ps qs : list (Z * A)) :
  ps ≡ₚ qs →
  ∀ output : list A,
  fold_left (add_into add) ps output = fold_left (add_into add) qs output.
Proof.
  induction 1 as [| p ps qs _ IH | p q ps | ps qs rs _ IH1 _ IH2];
    intros output; simpl.
  - done.
  - apply IH.
  - by rewrite add_into_comm.
  - by rewrite IH1.
Qed.

Lemma accumulate_fold_additive (index : list Z) (value initial : list A) :
  Forall (λ k, 0 ≤ k) index →
  accumulate_fold add index value initial
  = zip_with add initial
      (accumulate_fold add index value (replicate (length initial) zero)).
Proof.
  intros Hidx. apply list_eq. intros k.
  rewrite lookup_zip_with.
  destruct (initial !! k) as [init_k |] eqn:Hk; simpl.
  - pose proof (lookup_lt_Some _ _ _ Hk) as Hlt.
    rewrite (accumulate_fold_bucket add k index Hidx value initial init_k Hk).
    rewrite (accumulate_fold_bucket add k index Hidx value _ zero)
      by (by apply lookup_replicate_2).
    simpl. by rewrite (fold_left_add_sum add zero Hexact).
  - apply lookup_ge_None. rewrite length_accumulate_fold.
    by apply lookup_ge_None.
Qed.

End ExactMore.

Lemma valid_input_nonneg {A : Type} (index : list Z) (value output : list A) :
  valid_input index value output → Forall (λ k, 0 ≤ k) index.
Proof.
  intros [_ Hidx]. induction Hidx; constructor; [lia | done].
Qed.

(** X4. With exact addition the order of the measurements is immaterial:
    on valid inputs, two timelines whose (index, value) pairs are a
    permutation of one another leave the same buffer. *)
Theorem order_immaterial_when_exact {A : Type} (add : A → A → A) (zero : A)
    (index index' : list Z) (value value' output : list A) :
  ExactAdd add zero →
  valid_input index value output →
  valid_input index' value' output →
  zip index value ≡ₚ zip index' value' →
  groupby_python add index value output
  = groupby_python add index' value' output.
Proof.
  intros Hexact Hvalid Hvalid' Hperm.
  rewrite !groupby_python_valid by done.
  f_equal. by apply (fold_add_into_permutation add zero Hexact).
Qed.

Lemma order_immaterial_when_exact_witness :
  Int.groupby [0; 2; 0; 1] [1; 5; 3; 2] [10; 20; 30]
  = Int.groupby [1; 0; 0; 2] [2; 3; 1; 5] [10; 20; 30].
Proof.
  apply (order_immaterial_when_exact Z.add 0
           [0; 2; 0; 1] [1; 0; 0; 2] [1; 5; 3; 2] [2; 3; 1; 5] [10; 20; 30]).
  - exact Z_exact_add.
  - split; [reflexivity |]. repeat constructor; simpl; lia.
  - split; [reflexivity |]. repeat constructor; simpl; lia.
  - simpl. apply (bool_decide_unpack _). vm_compute. exact I.
Defined.

(** X5. With exact addition, accumulating into a buffer that already holds
    a map is adding the map of the new measurements to it: on valid input
    the kernel started from [initial] returns, bucket by bucket, [initial]
    plus what it returns started from zeros. *)
Theorem accumulation_additive {A : Type} (add : A → A → A) (zero : A)
    (index : list Z) (value initial : list A) :
  ExactAdd add zero →
  valid_input index value initial →
  ∃ sky,
    groupby_python add index value (replicate (length initial) zero)
      = Normal sky ∧
    groupby_python add index value initial
      = Normal (zip_with add initial sky).
Proof.
  intros Hexact Hvalid.
  exists (accumulate_fold add index value (replicate (length initial) zero)).
  split.
  - apply groupby_python_valid. destruct Hvalid as [Hlen Hidx].
    split; [done |]. by rewrite length_replicate.
  - rewrite groupby_python_valid by done. f_equal.
    apply (accumulate_fold_additive add zero Hexact).
    by eapply valid_input_nonneg.
Qed.

Lemma accumulation_additive_witness :
  ∃ sky,
    Int.groupby [0; 2; 0; 1] [1; 5; 3; 2] (replicate 3 0) = Normal sky ∧
    Int.groupby [0; 2; 0; 1] [1; 5; 3; 2] [10; 20; 30]
      = Normal (zip_with Z.add [10; 20; 30] sky).
Proof.
  apply (accumulation_additive Z.add 0 [0; 2; 0; 1] [1; 5; 3; 2] [10; 20; 30]).
  - exact Z_exact_add.
  - split; [reflexivity |]. repeat constructor; simpl; lia.
Defined.

(** ** Unit weights *)

Lemma values_at_const {A : Type} (k : nat) (index : list Z) (one : A) :
  values_at k index (replicate (length index) one)
  = replicate (length (filter (λ j, j = Z.of_nat k) index)) one.
Proof.
  unfold values_at. induction index as [| j index IH]; [done |].
  simpl length. simpl replicate. simpl zip.
  destruct (decide (j = Z.of_nat k)) as [Hj | Hj].
  - rewrite filter_cons_True by done.
    rewrite (filter_cons_True (λ j, j = Z.of_nat k)) by done.
    by rewrite fmap_cons, IH.
  - rewrite filter_cons_False by done.
    by rewrite (filter_cons_False (λ j, j = Z.of_nat k)) by done.
Qed.

Lemma groupby_python_unit_weights {A : Type} (add : A → A → A)
    (zero one : A) (index : list Z) (M : nat) :
  Forall (λ k, 0 ≤ k < Z.of_nat M) index →
  groupby_python add index (replicate (length index) one) (replicate M zero)
  = Normal ((λ k : nat,
               sum_list add zero
                 (replicate
                    (length (filter (λ j, j = Z.of_nat k) index)) one))
            <$> seq 0 M).
Proof.
  intros Hidx.
  assert (valid_input index (replicate (length index) one)
            (replicate M zero)) as Hvalid.
  { split; [by rewrite length_replicate |]. by rewrite length_replicate. }
  rewrite groupby_python_valid by done. f_equal.
  apply list_eq. intros k. rewrite list_lookup_fmap.
  destruct (decide (k < M)%nat) as [Hk | Hk].
  - rewrite (accumulate_fold_bucket add k index
               (valid_input_nonneg _ _ _ Hvalid) _ _ zero)
      by (by apply lookup_replicate_2).
    rewrite lookup_seq_lt by done. simpl. by rewrite values_at_const.
  - rewrite (proj2 (lookup_ge_None _ _))
      by (rewrite length_accumulate_fold, length_replicate; lia).
    by rewrite (proj2 (lookup_ge_None (seq 0 M) k))
      by (rewrite length_seq; lia).
Qed.

Lemma int64_add_of_Z (a b : Z) :
  Int64.add (Int64.of_Z a) (Int64.of_Z b) = Int64.of_Z (a + b).
Proof.
  apply dsig_eq. simpl. rewrite wrap_int64_add_l.
  rewrite (Z.add_comm a), wrap_int64_add_l. f_equal. lia.
Qed.

Lemma int64_fold_ones (n : nat) :
  ∀ a : Z,
  fold_left Int64.add (replicate n (Int64.of_Z 1)) (Int64.of_Z a)
  = Int64.of_Z (a + Z.of_nat n).
Proof.
  induction n as [| n IH]; intros a.
  - simpl. f_equal. lia.
  - simpl replicate. simpl fold_left. rewrite int64_add_of_Z, IH.
    f_equal. lia.
Qed.

Lemma int64_sum_ones (n : nat) :
  sum_list Int64.add Int64.zero (replicate n (Int64.of_Z 1))
  = Int64.of_Z (Z.of_nat n).
Proof. unfold sum_list, Int64.zero. by rewrite int64_fold_ones. Qed.

(** X6. With unit weights the kernel counts in the arithmetic of the
    buffer: when every index lies in [[0, M)] and the buffer starts zeroed,
    bucket [k] ends up holding [1] added up as many times as there are
    positions whose index is [k]; in an [int64] buffer that is the count
    reduced to 64-bit two's complement. *)
Theorem unit_weights_count (index : list Z) (M : nat) :
  Forall (λ k, 0 ≤ k < Z.of_nat M) index →
  (∀ (A : Type) (add : A → A → A) (zero one : A),
     groupby_python add index (replicate (length index) one)
       (replicate M zero)
     = Normal ((λ k : nat,
                  sum_list add zero
                    (replicate
                       (length (filter (λ j, j = Z.of_nat k) index)) one))
               <$> seq 0 M)) ∧
  Int64.groupby index (replicate (length index) (Int64.of_Z 1))
    (replicate M Int64.zero)
  = Normal ((λ k : nat,
               Int64.of_Z
                 (Z.of_nat (length (filter (λ j, j = Z.of_nat k) index))))
            <$> seq 0 M).
Proof.
  intros Hidx. split.
  - intros A add zero one. by apply groupby_python_unit_weights.
  - unfold Int64.groupby. rewrite groupby_python_unit_weights by done.
    f_equal. apply list_fmap_ext. intros _ k _. apply int64_sum_ones.
Qed.

Lemma unit_weights_count_witness :
  Int64.groupby [0; 2; 0; 0] (replicate (length [0; 2; 0; 0]) (Int64.of_Z 1))
    (replicate 3 Int64.zero)
  = Normal ((λ k : nat,
               Int64.of_Z
                 (Z.of_nat
                    (length (filter (λ j, j = Z.of_nat k) [0; 2; 0; 0]))))
            <$> seq 0 3).
Proof.
  apply (proj2 (unit_weights_count [0; 2; 0; 0] 3
                  ltac:(repeat constructor; simpl; lia))).
Defined.

(** ** The pandas map and the buffer sized after it *)

Lemma elem_of_labels (index : list Z) (k : Z) : k ∈ labels index ↔ k ∈ index.
Proof.
  unfold labels. by rewrite merge_sort_Permutation, elem_of_remove_dups.
Qed.

Lemma NoDup_labels (index : list Z) : NoDup (labels index).
Proof.
  unfold labels. rewrite merge_sort_Permutation. apply NoDup_remove_dups.
Qed.

Lemma Sorted_labels (index : list Z) : Sorted Z.le (labels index).
Proof. unfold labels. apply (Sorted_merge_sort Z.le). Qed.

Lemma Sorted_of_nat_seq (j n : nat) : Sorted Z.le (Z.of_nat <$> seq j n).
Proof.
  revert j. induction n as [| n IH]; intros j; simpl; [constructor |].
  constructor; [apply IH |].
  destruct n as [| n]; simpl; constructor. lia.
Qed.

Lemma labels_in_range_submseteq (index : list Z) (D : nat) :
  Forall (λ k, 0 ≤ k < Z.of_nat D) index →
  labels index ⊆+ Z.of_nat <$> seq 0 D.
Proof.
  intros Hidx. apply NoDup_submseteq; [apply NoDup_labels |].
  intros k Hk. rewrite elem_of_labels in Hk.
  rewrite Forall_forall in Hidx. specialize (Hidx k Hk).
  apply list_elem_of_fmap. exists (Z.to_nat k). split; [lia |].
  apply elem_of_seq. lia.
Qed.

(** Labels that fit below their own number are [0, 1, ..., D-1]. *)
Lemma labels_dense (index : list Z) :
  Forall (λ k, 0 ≤ k < Z.of_nat (length (labels index))) index →
  labels index = Z.of_nat <$> seq 0 (length (labels index)).
Proof.
  intros Hidx.
  apply (Sorted_unique Z.le);
    [apply Sorted_labels | apply Sorted_of_nat_seq |].
  apply submseteq_length_Permutation.
  - by apply labels_in_range_submseteq.
  - by rewrite length_fmap, length_seq.
Qed.

Section SkyMapFacts.
Context {A : Type}.
Variable add : A → A → A.
Variable zero : A.

Lemma length_zeros_like_series (pixels : list Z) (timeline : list A) :
  length (zeros_like (A:=A) zero (series_groupby_sum add zero pixels timeline))
  = length (labels pixels).
Proof.
  unfold zeros_like, series_groupby_sum.
  by rewrite length_replicate, length_fmap.
Qed.

Lemma dense_labels_in_range (pixels : list Z) :
  labels pixels = Z.of_nat <$> seq 0 (length (labels pixels)) →
  Forall (λ k, 0 ≤ k < Z.of_nat (length (labels pixels))) pixels.
Proof.
  intros Hdense. apply Forall_forall. intros k Hk.
  rewrite <- elem_of_labels in Hk. rewrite Hdense in Hk.
  apply list_elem_of_fmap in Hk as (i & -> & Hi).
  apply elem_of_seq in Hi. lia.
Qed.

Lemma sky_map_python_returns_iff (pixels : list Z) (timeline : list A) :
  Forall (λ k, 0 ≤ k) pixels →
  (length pixels ≤ length timeline)%nat →
  (∃ output, sky_map_python add zero pixels timeline = Normal output) ↔
  labels pixels = Z.of_nat <$> seq 0 (length (labels pixels)).
Proof.
  intros Hnonneg Hlen. unfold sky_map_python.
  pose proof (length_zeros_like_series pixels timeline) as HD.
  set (buf := zeros_like zero (series_groupby_sum add zero pixels timeline))
    in *.
  split.
  - intros [output Hrun]. apply labels_dense.
    destruct (decide (Forall (accepted (length buf)) pixels)) as [Hall | Hnot].
    + rewrite <- HD. apply Forall_forall. intros k Hk.
      rewrite Forall_forall in Hall, Hnonneg.
      specialize (Hall k Hk). specialize (Hnonneg k Hk).
      unfold accepted in Hall. lia.
    + destruct (first_rejected _ _ Hnot) as (good & k & rest & -> & Hgood & Hk).
      rewrite groupby_python_rejected in Hrun; [done | done | done |].
      rewrite length_app in Hlen. lia.
  - intros Hdense. eexists. apply groupby_python_accepted; [| done].
    rewrite HD. apply dense_labels_in_range in Hdense.
    apply Forall_forall. intros k Hk.
    rewrite Forall_forall in Hdense. specialize (Hdense k Hk).
    unfold accepted. lia.
Qed.

End SkyMapFacts.

(** X7. The buffer [np.zeros_like(m)] is as long as the pandas map, which
    has one entry per distinct pixel.  With non-negative pixels and a
    timeline of the same length, the kernel returns on it exactly when the
    distinct pixels are [0, 1, ..., D-1]; otherwise it raises [IndexError]
    for a pixel that is at least [D], the buffer length. *)
Theorem sky_map_needs_every_pixel {A : Type} (add : A → A → A) (zero : A)
    (pixels : list Z) (timeline : list A) :
  Forall (λ k, 0 ≤ k) pixels →
  length pixels = length timeline →
  ((∃ output, sky_map_python add zero pixels timeline = Normal output) ↔
   labels pixels = Z.of_nat <$> seq 0 (length (labels pixels))) ∧
  (labels pixels ≠ Z.of_nat <$> seq 0 (length (labels pixels)) →
   ∃ k output',
     sky_map_python add zero pixels timeline
       = Raised (IndexError k (length (labels pixels))) output' ∧
     k ∈ pixels ∧ Z.of_nat (length (labels pixels)) ≤ k).
Proof.
  intros Hnonneg Hlen.
  assert (length pixels ≤ length timeline)%nat as Hle by lia.
  pose proof (sky_map_python_returns_iff add zero pixels timeline Hnonneg Hle)
    as Hiff.
  split; [done |]. intros Hgap.
  unfold sky_map_python in *.
  pose proof (length_zeros_like_series add zero pixels timeline) as HD.
  set (buf := zeros_like zero (series_groupby_sum add zero pixels timeline))
    in *.
  destruct (decide (Forall (accepted (length buf)) pixels)) as [Hall | Hnot].
  { destruct Hgap. apply Hiff. eexists.
    by apply groupby_python_accepted. }
  destruct (first_rejected _ _ Hnot) as (good & k & rest & -> & Hgood & Hk).
  exists k. eexists. split; [| split].
  - rewrite <- HD. apply groupby_python_rejected; [done | done |].
    rewrite length_app in Hle. lia.
  - apply elem_of_app. right. apply elem_of_cons. by left.
  - rewrite Forall_forall in Hnonneg.
    assert (0 ≤ k) as Hk0.
    { apply Hnonneg, elem_of_app. right. apply elem_of_cons. by left. }
    rewrite <- HD. unfold accepted in Hk. lia.
Qed.

Lemma sky_map_needs_every_pixel_witness :
  ∃ k output',
    sky_map_python Z.add 0 [0; 3; 0; 1] [1; 5; 3; 2]
      = Raised (IndexError k (length (labels [0; 3; 0; 1]))) output' ∧
    k ∈ [0; 3; 0; 1] ∧ Z.of_nat (length (labels [0; 3; 0; 1])) ≤ k.
Proof.
  apply (proj2 (sky_map_needs_every_pixel Z.add 0 [0; 3; 0; 1] [1; 5; 3; 2]
                  ltac:(repeat constructor; lia) eq_refl)).
  vm_compute. discriminate.
Defined.

Section SkyMapExact.
Context {A : Type}.
Variable add : A → A → A.
Variable zero : A.
Hypothesis Hexact : ExactAdd add zero.

Lemma sum_list_permutation (vs ws : list A) :
  vs ≡ₚ ws → sum_list add zero vs = sum_list add zero ws.
Proof.
  induction 1 as [| v vs ws _ IH | v w vs | vs ws us _ IH1 _ IH2].
  - done.
  - by rewrite !(sum_list_cons add zero Hexact), IH.
  - rewrite !(sum_list_cons add zero Hexact).
    rewrite !(add_assoc add zero Hexact). f_equal.
    apply (add_comm add zero Hexact).
  - by rewrite IH1.
Qed.

Lemma sky_map_python_sums (pixels : list Z) (timeline sums : list A) :
  length pixels = length timeline →
  labels pixels = Z.of_nat <$> seq 0 (length (labels pixels)) →
  Forall2 (λ k s, ∃ vs, vs ≡ₚ group k pixels timeline ∧
                        s = sum_list add zero vs)
    (labels pixels) sums →
  sky_map_python add zero pixels timeline = Normal sums.
Proof.
  intros Hlen Hdense Hsums. unfold sky_map_python.
  pose proof (length_zeros_like_series add zero pixels timeline) as HD.
  set (buf := zeros_like zero (series_groupby_sum add zero pixels timeline))
    in *.
  pose proof (dense_labels_in_range pixels Hdense) as Hrange.
  assert (valid_input pixels timeline buf) as Hvalid.
  { split; [done |]. by rewrite HD. }
  rewrite groupby_python_valid by done. f_equal.
  apply list_eq. intros k.
  destruct (decide (k < length (labels pixels))%nat) as [Hk | Hk].
  - rewrite (accumulate_fold_bucket add k pixels
               (valid_input_nonneg _ _ _ Hvalid) _ _ zero)
      by (apply lookup_replicate_2; unfold series_groupby_sum;
          by rewrite length_fmap).
    assert (labels pixels !! k = Some (Z.of_nat k)) as Hlabel.
    { rewrite Hdense, list_lookup_fmap, lookup_seq_lt by done. done. }
    destruct (Forall2_lookup_l _ _ _ _ _ Hsums Hlabel)
      as (s & -> & vs & Hperm & ->).
    f_equal. symmetry. by rewrite (sum_list_permutation _ _ Hperm).
  - rewrite (proj2 (lookup_ge_None _ _))
      by (rewrite length_accumulate_fold, HD; lia).
    symmetry. apply lookup_ge_None.
    rewrite <- (Forall2_length _ _ _ Hsums). lia.
Qed.

End SkyMapExact.

(** X8. With exact addition, aligned arrays and distinct pixels
    [0, 1, ..., D-1], the buffer the kernel fills from [np.zeros_like(m)]
    equals the values of the pandas map [m] entry for entry, in whatever
    order pandas sums the values of a pixel. *)
Theorem sky_map_matches_pandas {A : Type} (add : A → A → A) (zero : A)
    (pixels : list Z) (timeline sums : list A) :
  ExactAdd add zero →
  length pixels = length timeline →
  labels pixels = Z.of_nat <$> seq 0 (length (labels pixels)) →
  Forall2 (λ k s, ∃ vs, vs ≡ₚ group k pixels timeline ∧
                        s = sum_list add zero vs)
    (labels pixels) sums →
  sky_map_python add zero pixels timeline = Normal sums.
Proof. intros Hexact. apply (sky_map_python_sums add zero Hexact). Qed.

Lemma sky_map_matches_pandas_witness :
  sky_map_python Z.add 0 [0; 2; 0; 1] [1; 5; 3; 2]
  = Normal (series_groupby_sum Z.add 0 [0; 2; 0; 1] [1; 5; 3; 2]).*2.
Proof.
  apply (sky_map_matches_pandas Z.add 0 [0; 2; 0; 1] [1; 5; 3; 2]).
  - exact Z_exact_add.
  - reflexivity.
  - vm_compute. reflexivity.
  - unfold series_groupby_sum. rewrite <- list_fmap_compose.
    apply Forall2_fmap_r, Forall_Forall2_diag, Forall_forall.
    intros k _. exists (group k [0; 2; 0; 1] [1; 5; 3; 2]). done.
Defined.

(** X9. Pixels drawn by [np.random.randint(0, NPIX-1, NTIME)] lie in
    [[0, NPIX-1)]: pixel [NPIX-1] is never drawn, and the pandas map, hence
    the buffer sized after it, has fewer than [NPIX] entries. *)
Theorem sky_map_shorter_than_NPIX (n : nat) (pixels : list Z) :
  randint 0 (NPIX - 1) n pixels →
  ((NPIX - 1) ∉ pixels) ∧ Z.of_nat (length (labels pixels)) < NPIX.
Proof.
  intros [_ Hrange]. split.
  - intros Hin. rewrite Forall_forall in Hrange.
    specialize (Hrange _ Hin). lia.
  - assert (Forall (λ k, 0 ≤ k < Z.of_nat (Z.to_nat (NPIX - 1))) pixels)
      as Hrange'.
    { eapply Forall_impl; [exact Hrange |]. unfold NPIX. simpl. lia. }
    apply labels_in_range_submseteq, submseteq_length in Hrange'.
    rewrite length_fmap, length_seq in Hrange'. unfold NPIX in *. lia.
Qed.

Lemma sky_map_shorter_than_NPIX_witness :
  ((NPIX - 1) ∉ [0; 49998; 7; 0]) ∧
  Z.of_nat (length (labels [0; 49998; 7; 0])) < NPIX.
Proof.
  apply (sky_map_shorter_than_NPIX 4 [0; 49998; 7; 0]).
  split; [reflexivity |]. unfold NPIX. repeat constructor; lia.
Defined.

(** ** Clamping twice *)

Section ClampMore.
Context {A T : Type}.
Variable abs : A → A.
Variable gt : A → T → bool.
Variable zero : A.

Lemma ufunc_zero_clamp_zero (threshold : T) :
  ufunc_zero_clamp abs gt zero zero threshold = zero.
Proof. unfold ufunc_zero_clamp. by destruct (gt (abs zero) threshold). Qed.

(** Clamping at [t] then at [t'] is clamping at [t'] once every element
    that passes [t'] also passes [t]. *)
Lemma ufunc_zero_clamp_twice (t t' : T) (x : A) :
  (gt (abs x) t' = true → gt (abs x) t = true) →
  ufunc_zero_clamp abs gt zero (ufunc_zero_clamp abs gt zero x t) t'
  = ufunc_zero_clamp abs gt zero x t'.
Proof.
  intros Hmono. unfold ufunc_zero_clamp.
  destruct (gt (abs x) t) eqn:Ht; [done |].
  destruct (gt (abs x) t') eqn:Ht'.
  - by specialize (Hmono eq_refl).
  - by destruct (gt (abs zero) t').
Qed.

(** ... and clamping at [t'] then at [t] is clamping at [t'] as well. *)
Lemma ufunc_zero_clamp_twice_rev (t t' : T) (x : A) :
  (gt (abs x) t' = true → gt (abs x) t = true) →
  ufunc_zero_clamp abs gt zero (ufunc_zero_clamp abs gt zero x t') t
  = ufunc_zero_clamp abs gt zero x t'.
Proof.
  intros Hmono. unfold ufunc_zero_clamp.
  destruct (gt (abs x) t') eqn:Ht'.
  - by rewrite Hmono.
  - by destruct (gt (abs zero) t).
Qed.

Lemma vectorize_twice (t t' t'' : T) (x : list A) :
  (∀ xi, ufunc_zero_clamp abs gt zero (ufunc_zero_clamp abs gt zero xi t) t'
         = ufunc_zero_clamp abs gt zero xi t'') →
  vectorize (ufunc_zero_clamp abs gt zero)
    (vectorize (ufunc_zero_clamp abs gt zero) x t) t'
  = vectorize (ufunc_zero_clamp abs gt zero) x t''.
Proof.
  intros Helem. unfold vectorize. rewrite <- list_fmap_compose.
  apply list_fmap_ext. intros _ xi _. apply Helem.
Qed.

Lemma zero_clamp_twice (t t' t'' : T) (mem mem' : nat → A) (x : list A) :
  (∀ xi, ufunc_zero_clamp abs gt zero (ufunc_zero_clamp abs gt zero xi t) t'
         = ufunc_zero_clamp abs gt zero xi t'') →
  bind (zero_clamp abs gt zero mem x t)
    (λ y, zero_clamp abs gt zero mem' y t')
  = zero_clamp abs gt zero mem x t''.
Proof.
  intros Helem. rewrite !zero_clamp_vectorize. simpl.
  rewrite zero_clamp_vectorize. f_equal. by apply vectorize_twice.
Qed.

End ClampMore.

(** X10. Clamping is idempotent: clamping an already clamped array at the
    same threshold returns it unchanged, for the compiled loop (whatever
    the uninitialised buffers held) and for the NumPy expression alike. *)
Theorem zero_clamp_idempotent {A T : Type} (abs : A → A) (gt : A → T → bool)
    (zero : A) (mem mem' : nat → A) (x : list A) (threshold : T) :
  bind (zero_clamp abs gt zero mem x threshold)
    (λ y, zero_clamp abs gt zero mem' y threshold)
  = zero_clamp abs gt zero mem x threshold ∧
  np_zero_clamp abs gt zero (np_zero_clamp abs gt zero x threshold) threshold
  = np_zero_clamp abs gt zero x threshold.
Proof.
  assert (∀ xi,
    ufunc_zero_clamp abs gt zero
      (ufunc_zero_clamp abs gt zero xi threshold) threshold
    = ufunc_zero_clamp abs gt zero xi threshold) as Helem.
  { intros xi. by apply ufunc_zero_clamp_twice. }
  split.
  - by apply zero_clamp_twice.
  - rewrite !np_zero_clamp_vectorize. by apply vectorize_twice.
Qed.

(** X11. Where the comparison is monotone in the threshold (an element
    above the larger threshold is above the smaller one), clamping at two
    thresholds, in either order, is clamping once at the larger. *)
Theorem zero_clamp_thresholds_compose {A T : Type} (abs : A → A)
    (gt : A → T → bool) (zero : A) (le : T → T → Prop)
    (mem mem' : nat → A) (x : list A) (t t' : T) :
  (∀ a s s', le s s' → gt a s' = true → gt a s = true) →
  le t t' →
  bind (zero_clamp abs gt zero mem x t) (λ y, zero_clamp abs gt zero mem' y t')
  = zero_clamp abs gt zero mem x t' ∧
  bind (zero_clamp abs gt zero mem x t') (λ y, zero_clamp abs gt zero mem' y t)
  = zero_clamp abs gt zero mem x t' ∧
  np_zero_clamp abs gt zero (np_zero_clamp abs gt zero x t) t'
  = np_zero_clamp abs gt zero x t' ∧
  np_zero_clamp abs gt zero (np_zero_clamp abs gt zero x t') t
  = np_zero_clamp abs gt zero x t'.
Proof.
  intros Hmono Hle.
  assert (∀ xi,
    ufunc_zero_clamp abs gt zero (ufunc_zero_clamp abs gt zero xi t) t'
    = ufunc_zero_clamp abs gt zero xi t') as Hup.
  { intros xi. apply ufunc_zero_clamp_twice. by apply Hmono. }
  assert (∀ xi,
    ufunc_zero_clamp abs gt zero (ufunc_zero_clamp abs gt zero xi t') t
    = ufunc_zero_clamp abs gt zero xi t') as Hdown.
  { intros xi. apply ufunc_zero_clamp_twice_rev. by apply Hmono. }
  repeat split.
  - by apply zero_clamp_twice.
  - by apply zero_clamp_twice.
  - rewrite !np_zero_clamp_vectorize. by apply vectorize_twice.
  - rewrite !np_zero_clamp_vectorize. by apply vectorize_twice.
Qed.

Lemma zero_clamp_thresholds_compose_witness :
  bind (zero_clamp IntClamp.abs IntClamp.gt 0 (λ _, 7) [5; -2000; 1700; 0] 1600)
    (λ y, zero_clamp IntClamp.abs IntClamp.gt 0 (λ _, 9) y 1800)
  = zero_clamp IntClamp.abs IntClamp.gt 0 (λ _, 7) [5; -2000; 1700; 0] 1800 ∧
  bind (zero_clamp IntClamp.abs IntClamp.gt 0 (λ _, 7) [5; -2000; 1700; 0] 1800)
    (λ y, zero_clamp IntClamp.abs IntClamp.gt 0 (λ _, 9) y 1600)
  = zero_clamp IntClamp.abs IntClamp.gt 0 (λ _, 7) [5; -2000; 1700; 0] 1800 ∧
  np_zero_clamp IntClamp.abs IntClamp.gt 0
    (np_zero_clamp IntClamp.abs IntClamp.gt 0 [5; -2000; 1700; 0] 1600) 1800
  = np_zero_clamp IntClamp.abs IntClamp.gt 0 [5; -2000; 1700; 0] 1800 ∧
  np_zero_clamp IntClamp.abs IntClamp.gt 0
    (np_zero_clamp IntClamp.abs IntClamp.gt 0 [5; -2000; 1700; 0] 1800) 1600
  = np_zero_clamp IntClamp.abs IntClamp.gt 0 [5; -2000; 1700; 0] 1800.
Proof.
  apply (zero_clamp_thresholds_compose IntClamp.abs IntClamp.gt 0 Z.le).
  - intros a s s' Hle Hgt. unfold IntClamp.gt in *.
    apply bool_decide_eq_true in Hgt. apply bool_decide_eq_true. lia.
  - lia.
Defined.

(** ** Not-a-number in the clamp *)

Lemma float64_gt_nan_l (t : float) : Float64.gt nan t = false.
Proof.
  unfold Float64.gt. rewrite FloatAxioms.ltb_spec.
  change (Prim2SF nan) with S754_nan.
  by destruct (Prim2SF t) as [| | | [] ? ?].
Qed.

Lemma float64_gt_nan_r (a : float) : Float64.gt a nan = false.
Proof.
  unfold Float64.gt. rewrite FloatAxioms.ltb_spec.
  change (Prim2SF nan) with S754_nan. done.
Qed.

(** X12. On [float64] the clamp silently turns not-a-number into zero: an
    element that is NaN is stored as [0] at every threshold, and with a NaN
    threshold the whole result is zeros. *)
Theorem float64_clamp_drops_nan :
  (∀ (mem : nat → float) (x : list float) (threshold : float) (i : nat),
     x !! i = Some nan →
     ∃ out, zero_clamp Float64.abs Float64.gt Float64.zero mem x threshold
              = inr out ∧
            out !! i = Some 0%float ∧
            np_zero_clamp Float64.abs Float64.gt Float64.zero x threshold !! i
              = Some 0%float) ∧
  (∀ (mem : nat → float) (x : list float),
     zero_clamp Float64.abs Float64.gt Float64.zero mem x nan
       = inr (replicate (length x) 0%float) ∧
     np_zero_clamp Float64.abs Float64.gt Float64.zero x nan
       = replicate (length x) 0%float).
Proof.
  split.
  - intros mem x threshold i Hi. eexists. split.
    { apply zero_clamp_vectorize. }
    rewrite np_zero_clamp_vectorize. unfold vectorize.
    rewrite list_lookup_fmap, Hi. simpl. unfold ufunc_zero_clamp.
    change (Float64.abs nan) with nan. by rewrite float64_gt_nan_l.
  - intros mem x.
    rewrite zero_clamp_vectorize, np_zero_clamp_vectorize.
    assert (vectorize (ufunc_zero_clamp Float64.abs Float64.gt Float64.zero)
              x nan = replicate (length x) 0%float) as ->; [| done].
    unfold vectorize. induction x as [| xi x IH]; [done |].
    rewrite fmap_cons, IH. simpl. f_equal.
    unfold ufunc_zero_clamp. by rewrite float64_gt_nan_r.
Qed.

Lemma float64_clamp_drops_nan_witness :
  ∃ out,
    zero_clamp Float64.abs Float64.gt Float64.zero (λ _, 42.0%float)
      [0.125; nan; 2.0]%float 0.25%float = inr out ∧
    out !! 1%nat = Some 0%float ∧
    np_zero_clamp Float64.abs Float64.gt Float64.zero
      [0.125; nan; 2.0]%float 0.25%float !! 1%nat = Some 0%float.
Proof.
  apply (proj1 float64_clamp_drops_nan (λ _, 42.0%float)
           [0.125; nan; 2.0]%float 0.25%float 1%nat).
  reflexivity.
Defined.
